(** * nyc-portfolio2025: the contact route, the contact form and the project filter

    A shallow embedding of the three pieces of behaviour of the portfolio:

    - the [POST] handler of the contact API route, in its TypeScript text
      (unnamed/part_000, lines 647-654) and its JavaScript text
      (unnamed/part_000, lines 656-663);
    - [handleSubmit] of the [Contact] component (src/app/page.tsx, lines
      706-728, and the earlier text at unnamed/part_000, lines 472-497);
    - the [filtered] list of the [Projects] component (src/app/page.tsx,
      lines 416-421);
    - the state and the conditional rendering of the other components of
      src/app/page.tsx: the menu of [Navbar] (lines 96-157), the effect of
      [Section] (lines 49-85), the category buttons and card keys of
      [Projects] (lines 428-448), the status paragraph of [Contact] (lines
      790-799).

    JavaScript values, completions and the few platform operations the code
    calls ([Request.json], [NextResponse.json], [Response.ok], React's event
    dispatch) are modelled first, the program text after them. *)

From stdpp Require Import gmap strings list fin_maps.
From Stdlib Require Import ZArith Floats.SpecFloat.

Set Warnings "-register-all".
Local Open Scope Z_scope.

(** ** JavaScript values *)

(** The values [JSON.parse] can build, and [undefined], which a missing
    property reads as.  A number is an IEEE 754 double; an object is a finite
    map from property names to values. *)
Inductive JsValue : Type :=
  | JUndefined
  | JNull
  | JBool (b : bool)
  | JNumber (x : spec_float)
  | JString (s : string)
  | JArray (items : list JsValue)
  | JObject (props : gmap string JsValue).

(** What a [throw] carries. *)
Inductive JsError : Type :=
  | TypeError
  | SyntaxError
  | Error (msg : string).

(** The outcome of evaluating an expression or of a settled promise:
    a value (fulfilled) or a thrown error (rejected). *)
Inductive Completion (A : Type) : Type :=
  | Normal (a : A)
  | Throw (e : JsError).
Arguments Normal {A} a.
Arguments Throw {A} e.

(** ECMAScript [ToBoolean]: the test behind [!x], [if (x)] and [||]. *)
Definition ToBoolean (v : JsValue) : bool :=
  match v with
  | JUndefined | JNull => false
  | JBool b => b
  | JNumber (S754_zero _) | JNumber S754_nan => false
  | JNumber _ => true
  | JString EmptyString => false
  | JString _ => true
  | JArray _ | JObject _ => true
  end.

(** [!x]. *)
Definition js_not (v : JsValue) : bool := negb (ToBoolean v).

(** Reading property [k] of a value that is neither [null] nor [undefined].
    Only an object can own a property called [name], [email] or [message];
    arrays, strings, numbers and booleans read as [undefined] there, and no
    built-in prototype defines one of the three. *)
Definition GetV (v : JsValue) (k : string) : JsValue :=
  match v with
  | JObject props => default JUndefined (props !! k)
  | _ => JUndefined
  end.

(** [RequireObjectCoercible]: an object pattern applied to [null] or
    [undefined] throws a [TypeError] before any property is read. *)
Definition RequireObjectCoercible (v : JsValue) : Completion JsValue :=
  match v with
  | JUndefined | JNull => Throw TypeError
  | _ => Normal v
  end.

(** The three required field names. *)
Definition required_fields : list string := ["name"; "email"; "message"].

(** ** Computations with state and exceptions *)

(** A computation over a state [S]: it runs in a state, completes normally
    or throws, and leaves a state.  An [async] function whose awaited
    promises settle is such a computation; a rejected promise is a [Throw]. *)
Definition Eff (S A : Type) : Type := S → Completion A * S.

Definition eff_ret {S A} (a : A) : Eff S A := λ s, (Normal a, s).

(** [throw e], or a promise rejected with [e]. *)
Definition eff_throw {S A} (e : JsError) : Eff S A := λ s, (Throw e, s).

(** Sequencing: [p; k], or [await p] followed by the rest of the function. *)
Definition eff_bind {S A B} (k : A → Eff S B) (p : Eff S A) : Eff S B :=
  λ s, match p s with
       | (Normal a, s') => k a s'
       | (Throw e, s') => (Throw e, s')
       end.

(** [try { p } catch (e) { handler }], and [p.catch(handler)] on promises. *)
Definition eff_catch {S A} (p : Eff S A) (handler : JsError → Eff S A) : Eff S A :=
  λ s, match p s with
       | (Normal a, s') => (Normal a, s')
       | (Throw e, s') => handler e s'
       end.

(** Lifting a completion that touches no state. *)
Definition eff_lift {S A} (c : Completion A) : Eff S A := λ s, (c, s).

#[global] Instance Eff_ret {S} : MRet (Eff S) := @eff_ret S.
#[global] Instance Eff_bind {S} : MBind (Eff S) := @eff_bind S.

(** ** The server side: state, requests and responses *)

(** What a route handler could do besides answering: the two actions the
    TODO comments of the handlers name. *)
Inductive Effect : Type :=
  | SendEmail (mail : JsValue)
  | LogToDb (entry : JsValue).

(** The server's world is the trace of such actions performed so far. *)
Definition World : Type := list Effect.

(** An [async] route handler runs in the server's world. *)
Definition Async : Type → Type := Eff World.

(** The text of a request body is either the JSON text of some value or text
    that [JSON.parse] refuses. *)
Inductive Body : Type :=
  | JsonText (v : JsValue)
  | Malformed (raw : string).

Record Request : Type := { body : Body }.

(** [req.json()]: resolves with the parsed value, rejects with a
    [SyntaxError] on text that is not JSON. *)
Definition Request_json (req : Request) : Async JsValue :=
  match body req with
  | JsonText v => eff_ret v
  | Malformed _ => eff_throw SyntaxError
  end.

Record Response : Type := { status : Z; payload : JsValue }.

(** [NextResponse.json(data, init)]: the status of [init] when given,
    200 otherwise. *)
Definition NextResponse_json (data : JsValue) (init : option Z) : Response :=
  {| status := default 200 init; payload := data |}.

(** [res.ok]: the status is in the range 200-299. *)
Definition Response_ok (res : Response) : bool :=
  (200 <=? status res) && (status res <=? 299).

(** The object literals of the handlers. *)
Definition body_ok_true : JsValue :=
  JObject {[ "ok" := JBool true ]}.

Definition body_missing_fields : JsValue :=
  JObject (<[ "ok" := JBool false ]> {[ "error" := JString "Missing fields" ]}).

Definition body_ok_false : JsValue :=
  JObject {[ "ok" := JBool false ]}.

(** [{}], the fallback of the TypeScript handler. *)
Definition empty_record : JsValue := JObject ∅.

(** [const { name, email, message } = v]. *)
Definition destructure (v : JsValue) : Completion (JsValue * JsValue * JsValue) :=
  match RequireObjectCoercible v with
  | Normal o => Normal (GetV o "name", GetV o "email", GetV o "message")
  | Throw e => Throw e
  end.

(** The condition of the [if]: [!name || !email || !message]. *)
Definition missing_fields (name email message : JsValue) : bool :=
  js_not name || js_not email || js_not message.

(** ** The route handlers *)

(** unnamed/part_000, lines 647-654. *)
Module RouteTs.

Definition POST (req : Request) : Async Response :=
  parsed ← eff_catch (Request_json req) (λ _, eff_ret empty_record);
  '(name, email, message) ← eff_lift (destructure parsed);
  if missing_fields name email message
  then mret (NextResponse_json body_missing_fields (Some 400))
  else mret (NextResponse_json body_ok_true None).

End RouteTs.

(** unnamed/part_000, lines 656-663: no [catch] on [req.json()], and the
    rejection body has no [error] property. *)
Module RouteJs.

Definition POST (req : Request) : Async Response :=
  parsed ← Request_json req;
  '(name, email, message) ← eff_lift (destructure parsed);
  if missing_fields name email message
  then mret (NextResponse_json body_ok_false (Some 400))
  else mret (NextResponse_json body_ok_true None).

End RouteJs.

(** A request whose body is the JSON text of [v]. *)
Definition json_request (v : JsValue) : Request := {| body := JsonText v |}.

(** The record the TypeScript handler validates: the parsed body, or [{}]
    when parsing fails. *)
Definition parsed_or_empty (req : Request) : JsValue :=
  match body req with
  | JsonText v => v
  | Malformed _ => empty_record
  end.

(** ** The client side: the [Contact] component *)

(** The form element, by the current values of its three named controls
    (two [input]s and a [textarea]). *)
Record HTMLFormElement : Type := {
  name_value : string;
  email_value : string;
  message_value : string
}.

(** [form.reset()]: no control of the form has a default value, so each
    goes back to the empty string. *)
Definition form_reset (_ : HTMLFormElement) : HTMLFormElement :=
  {| name_value := ""; email_value := ""; message_value := "" |}.

(** [new FormData(form)]: the entry list, in tree order. *)
Definition FormData : Type := list (string * string).

Definition FormData_of (form : HTMLFormElement) : FormData :=
  [("name", name_value form); ("email", email_value form);
   ("message", message_value form)].

(** [data.get(k)]: the first entry called [k], or [null]. *)
Fixpoint FormData_get (data : FormData) (k : string) : JsValue :=
  match data with
  | [] => JNull
  | (k', v) :: rest => if String.eqb k' k then JString v else FormData_get rest k
  end.

(** The [status] state of the component. *)
Inductive StatusType : Type := idle | ok | error.

Record Status : Type := { type : StatusType; message : option string }.

(** The second argument of [fetch], and the URL. *)
Record FetchCall : Type := {
  url : string;
  method : string;
  headers : list (string * string);
  fetch_body : Body
}.

(** What [e.currentTarget] can hold. *)
Inductive EventTarget : Type := ContactFormElement.

(** The page as [handleSubmit] sees it: the form, the component's [status],
    the submit event [e] (a mutable object shared with React), and the
    requests issued so far. *)
Record Page : Type := {
  form : HTMLFormElement;
  status_state : Status;
  currentTarget : option EventTarget;
  defaultPrevented : bool;
  network_log : list FetchCall
}.

Definition Client : Type → Type := Eff Page.

Definition preventDefault : Client unit := λ p,
  (Normal tt, {| form := form p; status_state := status_state p;
                 currentTarget := currentTarget p; defaultPrevented := true;
                 network_log := network_log p |}).

Definition setStatus (s : Status) : Client unit := λ p,
  (Normal tt, {| form := form p; status_state := s;
                 currentTarget := currentTarget p;
                 defaultPrevented := defaultPrevented p;
                 network_log := network_log p |}).

(** [new FormData(e.currentTarget)]; the constructor throws on [null]. *)
Definition new_FormData_currentTarget : Client FormData := λ p,
  match currentTarget p with
  | Some ContactFormElement => (Normal (FormData_of (form p)), p)
  | None => (Throw TypeError, p)
  end.

(** [e.currentTarget.reset()]; a method call on [null] throws. *)
Definition currentTarget_reset : Client unit := λ p,
  match currentTarget p with
  | Some ContactFormElement =>
      (Normal tt, {| form := form_reset (form p); status_state := status_state p;
                     currentTarget := currentTarget p;
                     defaultPrevented := defaultPrevented p;
                     network_log := network_log p |})
  | None => (Throw TypeError, p)
  end.

(** [JSON.stringify({ name: ..., email: ..., message: ... })]: the JSON text
    of the object with these three properties. *)
Definition JSON_stringify_fields (name email message : JsValue) : Body :=
  JsonText (JObject (<["name" := name]> (<["email" := email]> {["message" := message]}))).

Definition status_ok : Status :=
  {| type := ok; message := Some "Thanks! I'll get back to you soon." |}.

Definition status_error : Status :=
  {| type := error; message := Some "Something went wrong. Email me directly instead." |}.

(** src/app/page.tsx, lines 706-728 (and unnamed/part_000, lines 472-497,
    the same statements with the URL held in a constant).  [await_fetch]
    stands for [await fetch(url, init)]: the runtime the function is
    suspended in until the response arrives. *)
Definition handleSubmit (await_fetch : FetchCall → Client Response) : Client unit :=
  _ ← preventDefault;
  data ← new_FormData_currentTarget;
  eff_catch
    (res ← await_fetch
       {| url := "/api/contact";
          method := "POST";
          headers := [("Accept", "application/json")];
          fetch_body := JSON_stringify_fields (FormData_get data "name")
                          (FormData_get data "email") (FormData_get data "message") |};
     if negb (Response_ok res) then eff_throw (Error "Request failed")
     else
       _ ← setStatus status_ok;
       currentTarget_reset)
    (λ _, setStatus status_error).

(** *** React's dispatch of the submit event *)

(** The network, as the client meets it: a call is answered by a response,
    or fails. *)
Definition Network : Type := FetchCall → Completion Response.

Definition set_currentTarget (t : option EventTarget) (p : Page) : Page :=
  {| form := form p; status_state := status_state p; currentTarget := t;
     defaultPrevented := defaultPrevented p; network_log := network_log p |}.

Definition log_call (call : FetchCall) (p : Page) : Page :=
  {| form := form p; status_state := status_state p;
     currentTarget := currentTarget p;
     defaultPrevented := defaultPrevented p;
     network_log := network_log p ++ [call] |}.

(** [await fetch(...)] inside a React listener.  The request is issued, the
    listener returns its promise to React, React's [executeDispatch] sets
    [event.currentTarget] back to [null], and only then does the response
    arrive and the function resume. *)
Definition React_await_fetch (net : Network) : FetchCall → Client Response :=
  λ call p, (net call, set_currentTarget None (log_call call p)).

(** The same suspension in a runtime that leaves the event alone. *)
Definition plain_await_fetch (net : Network) : FetchCall → Client Response :=
  λ call p, (net call, log_call call p).

(** Submitting the form: React sets [event.currentTarget] to the form and
    calls the listener. *)
Definition React_submit (net : Network) (p : Page) : Completion unit * Page :=
  handleSubmit (React_await_fetch net) (set_currentTarget (Some ContactFormElement) p).

(** The server behind the network: the TypeScript route answers the call. *)
Definition contact_route (w : World) : Network := λ call,
  fst (RouteTs.POST {| body := fetch_body call |} w).

(** ** The [Projects] component *)

Record Project : Type := {
  title : string;
  cat : string;
  thumb : string;
  desc : string;
  stack : list string;
  github : option string;
  demo : option string
}.

(** src/app/page.tsx, lines 418-421: the list the component displays. *)
Definition filtered (all : list Project) (active : string) : list Project :=
  if String.eqb active "All" then all
  else filter (λ p, cat p = active) all.

Definition categories : list string := ["All"; "Web"; "Data"; "Infra"].

(** src/app/page.tsx, lines 375-414: the project list. *)
Definition all : list Project := [
  {| title := "Roomer – Find great roommates";
     cat := "Web";
     thumb := "https://images.unsplash.com/photo-1494526585095-c41746248156?q=80&w=1200&auto=format&fit=crop";
     desc := "Listings app with maps, advanced filters, and secure auth.";
     stack := ["Next.js"; "React"; "Tailwind"; "PostgreSQL"; "Prisma"; "Vercel"];
     github := Some "https://github.com/placeholder/roomer";
     demo := Some "https://example.com/roomer" |};
  {| title := "TradeOps – Real-time incident search";
     cat := "Data";
     thumb := "https://images.unsplash.com/photo-1483478550801-ceba5fe50e8e?q=80&w=1200&auto=format&fit=crop";
     desc := "Unified search across Oracle/MS SQL for rapid root-cause analysis.";
     stack := ["Spring Boot"; "React"; "Oracle"; "MS SQL"; "Data JPA"];
     github := Some "https://github.com/placeholder/tradeops";
     demo := Some "https://example.com/tradeops" |};
  {| title := "GridPro – 1M+ row data explorer";
     cat := "Web";
     thumb := "https://images.unsplash.com/photo-1551281044-8f785ba67e45?q=80&w=1200&auto=format&fit=crop";
     desc := "AG Grid with server-side pagination and dynamic filtering.";
     stack := ["Angular"; "AG Grid"; "Node"; "Kubernetes"];
     github := Some "https://github.com/placeholder/gridpro";
     demo := Some "https://example.com/gridpro" |};
  {| title := "Infra Pipelines — CI/CD";
     cat := "Infra";
     thumb := "https://images.unsplash.com/photo-1518779578993-ec3579fee39f?q=80&w=1200&auto=format&fit=crop";
     desc := "Containerized builds, preview deploys, and rollout safety via feature flags.";
     stack := ["Docker"; "GitHub Actions"; "K8s"; "Vercel"];
     github := None;
     demo := None |}
].

(** The component's state: the active category, ["All"] at first;
    a category button calls [setActive]. *)
Record ProjectsState : Type := { active : string }.

Definition initial_state : ProjectsState := {| active := "All" |}.

Definition setActive (c : string) (_ : ProjectsState) : ProjectsState :=
  {| active := c |}.

(** What a render displays. *)
Definition displayed (st : ProjectsState) : list Project :=
  filtered all (active st).

(** ** Vocabulary of the properties *)

(** All three fields read as truthy values. *)
Definition valid_submission (v : JsValue) : bool :=
  forallb (λ k, ToBoolean (GetV v k)) required_fields.

Definition nonempty_string (v : JsValue) : bool :=
  match v with
  | JString (String _ _) => true
  | _ => false
  end.

(** All three fields are non-empty strings. *)
Definition nonempty_string_fields (v : JsValue) : bool :=
  forallb (λ k, nonempty_string (GetV v k)) required_fields.

(** Property [k] is present in the record and holds a truthy value. *)
Definition present_truthy (props : gmap string JsValue) (k : string) : Prop :=
  ∃ v, props !! k = Some v ∧ ToBoolean v = true.

(** Property [k] is absent, the empty string, [null] or [undefined]. *)
Definition absent_or_empty (props : gmap string JsValue) (k : string) : bool :=
  match props !! k with
  | None | Some (JString EmptyString) | Some JNull | Some JUndefined => true
  | Some _ => false
  end.

Definition success_response : Response :=
  {| status := 200; payload := body_ok_true |}.

Definition missing_fields_response : Response :=
  {| status := 400; payload := body_missing_fields |}.

(** Serving requests one after the other, each in the world the previous
    one left. *)
Fixpoint serve (handler : Request → Async Response) (reqs : list Request)
    (w : World) : list (Completion Response) * World :=
  match reqs with
  | [] => ([], w)
  | req :: rest =>
      let '(c, w1) := handler req w in
      let '(cs, w2) := serve handler rest w1 in
      (c :: cs, w2)
  end.

(** Reading one field the way the object pattern does. *)
Definition read_field (v : JsValue) (k : string) : Completion JsValue :=
  match RequireObjectCoercible v with
  | Normal o => Normal (GetV o k)
  | Throw e => Throw e
  end.

Definition ada : gmap string JsValue :=
  <["name" := JString "Ada"]>
    (<["email" := JString "ada@example.com"]> {["message" := JString "Hello"]}).

(** Some required field is absent, the empty string, [null] or [undefined]. *)
Definition some_field_missing (props : gmap string JsValue) : bool :=
  existsb (absent_or_empty props) required_fields.

(** A field that is present, falsy, and not a string. *)
Definition falsy_nonstring (props : gmap string JsValue) (k : string) : bool :=
  match props !! k with
  | None | Some (JString _) => false
  | Some v => negb (ToBoolean v)
  end.

(** [{name: 1, email: true, message: ["x"]}]: truthy values, none a string. *)
Definition truthy_nonstrings : gmap string JsValue :=
  <["name" := JNumber (S754_finite false 1 0)]>
    (<["email" := JBool true]> {["message" := JArray [JString "x"]]}).

(** [{name: 0, email: "ada@example.com", message: "Hello"}]. *)
Definition zero_name : gmap string JsValue :=
  <["name" := JNumber (S754_zero false)]> ada.

(** [{name: "Ada", email: false, message: "Hello"}]. *)
Definition false_email : gmap string JsValue :=
  <["email" := JBool false]> ada.

(** Two parsed bodies read the same on the three fields. *)
Definition agree_on_fields (v1 v2 : JsValue) : Prop :=
  Forall (λ k, read_field v1 k = read_field v2 k) required_fields.

(** [{name, email, message, company: "ACME", ok: false}]. *)
Definition ada_with_extras : gmap string JsValue :=
  <["company" := JString "ACME"]> (<["ok" := JBool false]> ada).

(** The request the form sends for the values it holds. *)
Definition submit_call (f : HTMLFormElement) : FetchCall :=
  {| url := "/api/contact";
     method := "POST";
     headers := [("Accept", "application/json")];
     fetch_body :=
       JsonText (JObject (<["name" := JString (name_value f)]>
         (<["email" := JString (email_value f)]>
            {["message" := JString (message_value f)]}))) |}.

Definition ada_page : Page :=
  {| form := {| name_value := "Ada"; email_value := "ada@example.com";
                message_value := "Hello" |};
     status_state := {| type := idle; message := None |};
     currentTarget := None;
     defaultPrevented := false;
     network_log := [] |}.

(** ** The [Navbar] component *)

Record NavLink : Type := { href : string; label : string }.

(** src/app/page.tsx, lines 98-108. *)
Definition links : list NavLink := [
  {| href := "#about"; label := "About" |};
  {| href := "#services"; label := "Services" |};
  {| href := "#skills"; label := "Skills" |};
  {| href := "#projects"; label := "Projects" |};
  {| href := "#case-studies"; label := "Case Studies" |};
  {| href := "#experience"; label := "Experience" |};
  {| href := "#testimonials"; label := "Testimonials" |};
  {| href := "#credentials"; label := "Credentials" |};
  {| href := "#contact"; label := "Contact" |}
].

(** What the user can click in the bar. *)
Inductive NavEvent : Type :=
  | ToggleMenu
  | MobileLinkClick
  | DesktopLinkClick.

(** The handlers, on the [open] state: the button runs [setOpen(!open)], a
    link of the mobile list runs [setOpen(false)], a link of the desktop
    list has no handler. *)
Definition Navbar_handle (ev : NavEvent) (is_open : bool) : bool :=
  match ev with
  | ToggleMenu => negb is_open
  | MobileLinkClick => false
  | DesktopLinkClick => is_open
  end.

(** What a render of the bar shows: [aria-expanded] on the button, the
    desktop list, and the mobile list under [open && (...)]. *)
Record NavbarView : Type := {
  aria_expanded : bool;
  desktop_links : list NavLink;
  mobile_links : option (list NavLink)
}.

Definition Navbar_render (is_open : bool) : NavbarView :=
  {| aria_expanded := is_open;
     desktop_links := links;
     mobile_links := if is_open then Some links else None |}.

(** An event can happen only on something the render shows: the mobile
    links exist only while the menu is open. *)
Definition Navbar_enabled (ev : NavEvent) (is_open : bool) : bool :=
  match ev with
  | MobileLinkClick => bool_decide (is_Some (mobile_links (Navbar_render is_open)))
  | _ => true
  end.

(** The state after a sequence of events, oldest first; [useState(false)]
    gives the first one. *)
Definition Navbar_run (evs : list NavEvent) (is_open : bool) : bool :=
  foldl (λ o ev, Navbar_handle ev o) is_open evs.

(** Every event of the sequence was enabled when it happened. *)
Fixpoint Navbar_trace (evs : list NavEvent) (is_open : bool) : bool :=
  match evs with
  | [] => true
  | ev :: rest =>
      Navbar_enabled ev is_open && Navbar_trace rest (Navbar_handle ev is_open)
  end.

(** The clicks of a sequence that have a handler: those on the button and
    on the links of the mobile list. *)
Fixpoint menu_clicks (evs : list NavEvent) : nat :=
  match evs with
  | [] => 0%nat
  | DesktopLinkClick :: rest => menu_clicks rest
  | _ :: rest => S (menu_clicks rest)
  end.

(** ** The [Section] wrapper *)

(** The two variants of the [motion.div]. *)
Inductive Variant : Type := hidden | visible.

(** The animation state of a section: the variant [controls] is at, and the
    value of [inView] the effect last ran with ([None] before the first
    render). *)
Record SectionState : Type := {
  variant : Variant;
  effect_deps : option bool
}.

(** [initial="hidden"]. *)
Definition Section_mount : SectionState :=
  {| variant := hidden; effect_deps := None |}.

(** The body of the effect: [if (inView) controls.start("visible")]. *)
Definition Section_effect (inView : bool) (v : Variant) : Variant :=
  if inView then visible else v.

(** A render with the given [inView]: [useEffect(..., [inView, controls])]
    runs its body after the first render and after each render in which
    [inView] differs from the last run; [controls] never changes. *)
Definition Section_render (inView : bool) (s : SectionState) : SectionState :=
  match effect_deps s with
  | Some previous =>
      if Bool.eqb previous inView then s
      else {| variant := Section_effect inView (variant s);
              effect_deps := Some inView |}
  | None => {| variant := Section_effect inView (variant s);
               effect_deps := Some inView |}
  end.

Definition Section_renders (observations : list bool) : SectionState :=
  foldl (λ s inView, Section_render inView s) Section_mount observations.

(** ** The category buttons of [Projects] *)

(** src/app/page.tsx, lines 428-442: one button per category; the test
    [active === c] gives both [aria-pressed] and the accent colours. *)
Record CategoryButton : Type := { caption : string; aria_pressed : bool }.

Definition category_buttons (st : ProjectsState) : list CategoryButton :=
  (λ c, {| caption := c; aria_pressed := String.eqb (active st) c |}) <$> categories.

(** [onClick={() => setActive(c)}], for the buttons clicked in turn. *)
Definition Projects_clicks (clicks : list string) : ProjectsState :=
  foldl (λ st c, setActive c st) initial_state clicks.

(** Every click was on one of the rendered buttons. *)
Definition clicks_on_buttons (clicks : list string) : bool :=
  forallb (λ c, bool_decide (c ∈ categories)) clicks.

(** The React keys of the displayed cards: [key={p.title}]. *)
Definition card_keys (projects : list Project) : list string := title <$> projects.

(** The [cat] field has the type ["Web" | "Data" | "Infra"]. *)
Definition well_typed_cats (projects : list Project) : bool :=
  forallb (λ p, bool_decide (cat p ∈ ["Web"; "Data"; "Infra"])) projects.

(** ** The status paragraph of [Contact] *)

(** src/app/page.tsx, lines 790-799: shown unless the status is idle, green
    for ["ok"] and red otherwise, with the status message as its text. *)
Record StatusParagraph : Type := { className : string; text : option string }.

Definition status_paragraph (s : Status) : option StatusParagraph :=
  match type s with
  | idle => None
  | t => Some {| className := "text-sm " ++
                   match t with ok => "text-green-600" | _ => "text-red-600" end;
                 text := message s |}
  end.

(** [useState({ type: "idle" })]. *)
Definition status_idle : Status := {| type := idle; message := None |}.

(** What happens to the form: the user changes the values of its controls,
    or submits it and the network answers as [net]. *)
Inductive ContactEvent : Type :=
  | Edit (values : HTMLFormElement)
  | Submit (net : Network).

Definition set_form (f : HTMLFormElement) (p : Page) : Page :=
  {| form := f; status_state := status_state p; currentTarget := currentTarget p;
     defaultPrevented := defaultPrevented p; network_log := network_log p |}.

(** One event on the page under React; a submission also gives the
    completion of the listener. *)
Definition Contact_handle (ev : ContactEvent) (p : Page) : list (Completion unit) * Page :=
  match ev with
  | Edit f => ([], set_form f p)
  | Submit net => let '(c, p') := React_submit net p in ([c], p')
  end.

Fixpoint Contact_run (evs : list ContactEvent) (p : Page) : list (Completion unit) * Page :=
  match evs with
  | [] => ([], p)
  | ev :: rest =>
      let '(cs, p1) := Contact_handle ev p in
      let '(cs', p2) := Contact_run rest p1 in
      (cs ++ cs', p2)
  end.

(** The values the form held at each submission of a sequence of events. *)
Fixpoint submitted_values (evs : list ContactEvent) (f : HTMLFormElement) : list HTMLFormElement :=
  match evs with
  | [] => []
  | Edit f' :: rest => submitted_values rest f'
  | Submit _ :: rest => f :: submitted_values rest f
  end.

(** The values the form holds after a sequence of events in which no
    listener clears it. *)
Fixpoint last_values (evs : list ContactEvent) (f : HTMLFormElement) : HTMLFormElement :=
  match evs with
  | [] => f
  | Edit f' :: rest => last_values rest f'
  | Submit _ :: rest => last_values rest f
  end.

(** The pages a visitor can reach from a page with the idle status, by
    submissions under React or in a runtime that keeps the event. *)
Inductive Contact_reachable : Page → Prop :=
  | reach_idle p : status_state p = status_idle → Contact_reachable p
  | reach_edit f p : Contact_reachable p → Contact_reachable (set_form f p)
  | reach_React net p :
      Contact_reachable p → Contact_reachable (snd (React_submit net p))
  | reach_plain net p :
      Contact_reachable p →
      Contact_reachable (snd (handleSubmit (plain_await_fetch net)
                                (set_currentTarget (Some ContactFormElement) p))).

(** All three controls of the form hold some text. *)
Definition form_filled (f : HTMLFormElement) : bool :=
  negb (String.eqb (name_value f) "") && negb (String.eqb (email_value f) "")
  && negb (String.eqb (message_value f) "").

(** A parsed body that is neither an object nor [null] nor [undefined]. *)
Definition primitive_or_array (v : JsValue) : bool :=
  match v with
  | JBool _ | JNumber _ | JString _ | JArray _ => true
  | JUndefined | JNull | JObject _ => false
  end.

(** The answer a request calls for by its parsed body alone: the
    [TypeError] of the object pattern on [null] and [undefined], the
    success response when the three fields are truthy, the missing-fields
    response otherwise. *)
Definition answer_for (v : JsValue) : Completion Response :=
  match v with
  | JNull | JUndefined => Throw TypeError
  | _ => Normal (if valid_submission v
                 then success_response else missing_fields_response)
  end.

(** * Properties *)

(** ** The handlers and components on concrete inputs *)

Example scenario1 :
  RouteTs.POST (json_request (JObject (<["name" := JString "Ada"]>
     (<["email" := JString "ada@example.com"]> {["message" := JString "Hello"]})))) []
  = (Normal {| status := 200; payload := body_ok_true |}, []).
Proof. reflexivity. Qed.

Example scenario2 :
  RouteTs.POST (json_request (JObject (<["name" := JString "Ada"]>
     (<["email" := JString ""]> {["message" := JString "Hello"]})))) []
  = (Normal {| status := 400; payload := body_missing_fields |}, []).
Proof. reflexivity. Qed.

Example scenario3 :
  RouteTs.POST (json_request (JObject ∅)) []
  = (Normal {| status := 400; payload := body_missing_fields |}, [])
  ∧ RouteTs.POST {| body := Malformed "name=Ada" |} []
  = (Normal {| status := 400; payload := body_missing_fields |}, []).
Proof. split; reflexivity. Qed.

Example scenario4 :
  RouteTs.POST (json_request (JObject (<["name" := JString "Ada"]>
     {["message" := JString "Hello"]}))) []
  = (Normal {| status := 400; payload := body_missing_fields |}, []).
Proof. reflexivity. Qed.

Example displayed_web :
  title <$> displayed (setActive "Web" initial_state)
  = ["Roomer – Find great roommates"; "GridPro – 1M+ row data explorer"].
Proof. reflexivity. Qed.

Example displayed_all_again :
  displayed (setActive "All" (setActive "Infra" initial_state)) = all.
Proof. reflexivity. Qed.

Example React_submit_success_trace :
  let p := {| form := {| name_value := "Ada"; email_value := "ada@example.com";
                         message_value := "Hello" |};
              status_state := {| type := idle; message := None |};
              currentTarget := None; defaultPrevented := false; network_log := [] |} in
  let '(c, p') := React_submit (contact_route []) p in
  (c, type (status_state p'), name_value (form p'), length (network_log p'))
  = (Normal tt, error, "Ada", 1%nat).
Proof. vm_compute. reflexivity. Qed.

(** ** The handlers, equationally *)

Lemma RouteTs_POST_eq req w :
  RouteTs.POST req w =
  match destructure (parsed_or_empty req) with
  | Normal (name, email, message) =>
      (Normal (if missing_fields name email message
               then missing_fields_response else success_response), w)
  | Throw e => (Throw e, w)
  end.
Proof.
  destruct req as [[v|raw]]; cbn -[missing_fields];
    unfold RouteTs.POST, mbind, Eff_bind, eff_bind, eff_catch, Request_json, eff_lift;
    cbn -[missing_fields destructure].
  - destruct (destructure v) as [[[n e] m]|err]; [|reflexivity].
    by destruct (missing_fields n e m).
  - cbn -[missing_fields]. by destruct (missing_fields _ _ _).
Qed.

Lemma RouteJs_POST_eq req w :
  RouteJs.POST req w =
  match body req with
  | JsonText v =>
      match destructure v with
      | Normal (name, email, message) =>
          (Normal (if missing_fields name email message
                   then {| status := 400; payload := body_ok_false |}
                   else success_response), w)
      | Throw e => (Throw e, w)
      end
  | Malformed _ => (Throw SyntaxError, w)
  end.
Proof.
  destruct req as [[v|raw]]; cbn -[missing_fields];
    unfold RouteJs.POST, mbind, Eff_bind, eff_bind, Request_json, eff_lift;
    cbn -[missing_fields destructure]; [|reflexivity].
  destruct (destructure v) as [[[n e] m]|err]; [|reflexivity].
  by destruct (missing_fields n e m).
Qed.

Lemma destructure_record props :
  destructure (JObject props) =
  Normal (GetV (JObject props) "name", GetV (JObject props) "email",
          GetV (JObject props) "message").
Proof. reflexivity. Qed.

Lemma missing_fields_valid v :
  missing_fields (GetV v "name") (GetV v "email") (GetV v "message")
  = negb (valid_submission v).
Proof.
  unfold missing_fields, js_not, valid_submission; cbn.
  destruct (ToBoolean (GetV v "name")), (ToBoolean (GetV v "email")),
    (ToBoolean (GetV v "message")); reflexivity.
Qed.

Lemma RouteTs_POST_record props w :
  RouteTs.POST (json_request (JObject props)) w =
  (Normal (if valid_submission (JObject props)
           then success_response else missing_fields_response), w).
Proof.
  rewrite RouteTs_POST_eq. cbn [parsed_or_empty json_request body].
  rewrite destructure_record, missing_fields_valid.
  by destruct (valid_submission _).
Qed.

(** ** Validity, field by field *)

Lemma valid_submission_fields v :
  valid_submission v = true ↔
  ∀ k, k ∈ required_fields → ToBoolean (GetV v k) = true.
Proof.
  unfold valid_submission. rewrite forallb_forall.
  split; intros H k Hk; apply H; by apply list_elem_of_In.
Qed.

Lemma falsy_field_invalid v k :
  k ∈ required_fields → ToBoolean (GetV v k) = false → valid_submission v = false.
Proof.
  intros Hk Hfalse. destruct (valid_submission v) eqn:Hv; [|reflexivity].
  rewrite valid_submission_fields in Hv. rewrite (Hv k Hk) in Hfalse. discriminate.
Qed.

Lemma nonempty_string_truthy v : nonempty_string v = true → ToBoolean v = true.
Proof. destruct v as [| | | |[|c s]| |]; cbn; congruence. Qed.

Lemma nonempty_string_fields_valid v :
  nonempty_string_fields v = true → valid_submission v = true.
Proof.
  unfold nonempty_string_fields, valid_submission. rewrite !forallb_forall.
  intros H k Hk. apply nonempty_string_truthy, H, Hk.
Qed.

Lemma truthy_GetV_present props k :
  ToBoolean (GetV (JObject props) k) = true ↔ present_truthy props k.
Proof.
  unfold present_truthy; cbn. split.
  - destruct (props !! k) as [v|] eqn:Hk; cbn; [eauto | discriminate].
  - intros (v & -> & Hv). exact Hv.
Qed.

Lemma valid_submission_present props :
  valid_submission (JObject props) = true ↔
  ∀ k, k ∈ required_fields → present_truthy props k.
Proof.
  rewrite valid_submission_fields.
  split; intros H k Hk; apply truthy_GetV_present, H, Hk.
Qed.

Lemma absent_or_empty_falsy props k :
  absent_or_empty props k = true → ToBoolean (GetV (JObject props) k) = false.
Proof.
  unfold absent_or_empty; cbn.
  destruct (props !! k) as [[| | | |[|c s]| |]|]; cbn; congruence.
Qed.

Lemma responses_differ : success_response ≠ missing_fields_response.
Proof. discriminate. Qed.

(** ** Accepted submissions *)

(** C1.  A record whose [name], [email] and [message] are non-empty strings
    passes the validation, and the handler answers with status 200, a
    success status, and body [{ok: true}], leaving the world as it was.
    More generally a record is accepted exactly when each of the three
    fields is present and holds a truthy value. *)
Theorem POST_accepts_nonempty_strings (props : gmap string JsValue) (w : World)
    (Hfields : nonempty_string_fields (JObject props) = true) :
  missing_fields (GetV (JObject props) "name") (GetV (JObject props) "email")
    (GetV (JObject props) "message") = false
  ∧ RouteTs.POST (json_request (JObject props)) w = (Normal success_response, w)
  ∧ Response_ok success_response = true
  ∧ payload success_response = JObject {[ "ok" := JBool true ]}
  ∧ ∀ (props' : gmap string JsValue) (w' : World),
      RouteTs.POST (json_request (JObject props')) w' = (Normal success_response, w')
      ↔ ∀ k, k ∈ required_fields → present_truthy props' k.
Proof.
  apply nonempty_string_fields_valid in Hfields as Hvalid.
  split; [by rewrite missing_fields_valid, Hvalid|].
  split; [by rewrite RouteTs_POST_record, Hvalid|].
  do 2 (split; [reflexivity|]).
  intros props' w'. rewrite RouteTs_POST_record, <- valid_submission_present.
  by destruct (valid_submission (JObject props')); split.
Qed.

Lemma POST_accepts_nonempty_strings_witness :
  nonempty_string_fields (JObject ada) = true
  ∧ RouteTs.POST (json_request (JObject ada)) [] = (Normal success_response, []).
Proof.
  split; [reflexivity|].
  exact (proj1 (proj2 (POST_accepts_nonempty_strings ada [] eq_refl))).
Defined.

(** ** The handler as a whole *)

Lemma valid_submission_coercible v :
  valid_submission v = true →
  destructure v = Normal (GetV v "name", GetV v "email", GetV v "message").
Proof. by destruct v. Qed.

Lemma RouteTs_POST_valid req w :
  valid_submission (parsed_or_empty req) = true →
  RouteTs.POST req w = (Normal success_response, w).
Proof.
  intros Hvalid. rewrite RouteTs_POST_eq, (valid_submission_coercible _ Hvalid).
  by rewrite missing_fields_valid, Hvalid.
Qed.

Lemma RouteTs_POST_world req w : snd (RouteTs.POST req w) = w.
Proof.
  rewrite RouteTs_POST_eq.
  by destruct (destructure (parsed_or_empty req)) as [[[n e] m]|err].
Qed.

Lemma RouteTs_POST_any_world req w1 w2 :
  fst (RouteTs.POST req w1) = fst (RouteTs.POST req w2).
Proof.
  rewrite !RouteTs_POST_eq.
  by destruct (destructure (parsed_or_empty req)) as [[[n e] m]|err].
Qed.

Lemma serve_RouteTs_world reqs w : snd (serve RouteTs.POST reqs w) = w.
Proof.
  revert w. induction reqs as [|req rest IH]; intros w; [reflexivity|].
  cbn [serve]. pose proof (RouteTs_POST_world req w) as Hw.
  destruct (RouteTs.POST req w) as [c w1]; cbn in Hw; subst w1.
  specialize (IH w). by destruct (serve RouteTs.POST rest w) as [cs w2].
Qed.

Lemma body_ok_false_has_no_error : body_ok_false ≠ body_missing_fields.
Proof.
  intros H. apply (f_equal (λ v, GetV v "error")) in H. discriminate H.
Qed.

Lemma some_field_missing_invalid props :
  some_field_missing props = true → valid_submission (JObject props) = false.
Proof.
  unfold some_field_missing. rewrite existsb_exists. intros (k & Hk & Hmiss).
  apply (falsy_field_invalid _ k); [by apply list_elem_of_In|].
  by apply absent_or_empty_falsy.
Qed.

(** C2.  For a record with a required field absent, empty, [null] or
    [undefined], the TypeScript handler answers 400 with body
    [{ok: false, error: "Missing fields"}]; the JavaScript handler answers
    400 too, but its body is [{ok: false}], without the [error] property. *)
Theorem POST_rejects_missing_fields (props : gmap string JsValue) (w : World)
    (Hmissing : some_field_missing props = true) :
  RouteTs.POST (json_request (JObject props)) w = (Normal missing_fields_response, w)
  ∧ status missing_fields_response = 400
  ∧ payload missing_fields_response =
      JObject (<["ok" := JBool false]> {["error" := JString "Missing fields"]})
  ∧ RouteJs.POST (json_request (JObject props)) w
      = (Normal {| status := 400; payload := JObject {["ok" := JBool false]} |}, w)
  ∧ JObject {["ok" := JBool false]} ≠ payload missing_fields_response.
Proof.
  apply some_field_missing_invalid in Hmissing as Hinvalid.
  split; [by rewrite RouteTs_POST_record, Hinvalid|].
  do 2 (split; [reflexivity|]).
  split; [|exact body_ok_false_has_no_error].
  rewrite RouteJs_POST_eq. cbn [json_request body].
  by rewrite destructure_record, missing_fields_valid, Hinvalid.
Qed.

Lemma POST_rejects_missing_fields_witness :
  some_field_missing ∅ = true
  ∧ RouteJs.POST (json_request (JObject ∅)) []
      = (Normal {| status := 400; payload := JObject {["ok" := JBool false]} |}, []).
Proof.
  split; [reflexivity|].
  exact (proj1 (proj2 (proj2 (proj2 (POST_rejects_missing_fields ∅ [] eq_refl))))).
Defined.

(** C3.  On a body that is not JSON the TypeScript handler validates [{}]
    and answers 400 with the missing-fields body.  The JavaScript handler
    has no [catch]: the [SyntaxError] of [req.json()] escapes.  On the body
    [null], which parses but is no record, the object pattern throws a
    [TypeError] in both handlers. *)
Theorem POST_on_unparseable_body (raw : string) (w : World) :
  RouteTs.POST {| body := Malformed raw |} w = (Normal missing_fields_response, w)
  ∧ RouteTs.POST {| body := Malformed raw |} w = RouteTs.POST (json_request empty_record) w
  ∧ RouteJs.POST {| body := Malformed raw |} w = (Throw SyntaxError, w)
  ∧ RouteTs.POST (json_request JNull) w = (Throw TypeError, w)
  ∧ RouteJs.POST (json_request JNull) w = (Throw TypeError, w).
Proof. repeat split. Qed.

(** C4.  For a valid submission the response has a success status and body
    [{ok: true}], and the world is left as it was: no email is sent and
    nothing is stored. *)
Theorem POST_success_is_a_stub (req : Request) (w : World)
    (Hvalid : valid_submission (parsed_or_empty req) = true) :
  ∃ res, RouteTs.POST req w = (Normal res, w)
    ∧ Response_ok res = true
    ∧ status res = 200
    ∧ payload res = JObject {["ok" := JBool true]}
    ∧ ∀ eff : Effect, eff ∈ snd (RouteTs.POST req w) → eff ∈ w.
Proof.
  exists success_response. rewrite (RouteTs_POST_valid _ _ Hvalid).
  repeat split; done.
Qed.

Lemma POST_success_is_a_stub_witness :
  valid_submission (parsed_or_empty (json_request (JObject ada))) = true
  ∧ ∃ res, RouteTs.POST (json_request (JObject ada)) [] = (Normal res, [])
      ∧ Response_ok res = true.
Proof.
  split; [reflexivity|].
  destruct (POST_success_is_a_stub (json_request (JObject ada)) [] eq_refl)
    as (res & Hres & Hok & _).
  exists res. split; [exact Hres | exact Hok].
Defined.

(** C6.  A valid submission served twice in a row gives two success
    responses and leaves the world as it was; and whatever requests were
    served before, the submission is answered with the same success
    response. *)
Theorem POST_twice_independent (req : Request) (w : World)
    (Hvalid : valid_submission (parsed_or_empty req) = true) :
  serve RouteTs.POST [req; req] w
    = ([Normal success_response; Normal success_response], w)
  ∧ ∀ history : list Request,
      RouteTs.POST req (snd (serve RouteTs.POST history w))
      = (Normal success_response, w).
Proof.
  split.
  - cbn [serve]. rewrite (RouteTs_POST_valid _ _ Hvalid); cbv beta iota.
    by rewrite (RouteTs_POST_valid _ _ Hvalid).
  - intros history. rewrite serve_RouteTs_world. by apply RouteTs_POST_valid.
Qed.

Lemma POST_twice_independent_witness :
  valid_submission (parsed_or_empty (json_request (JObject ada))) = true
  ∧ serve RouteTs.POST [json_request (JObject ada); json_request (JObject ada)] []
    = ([Normal success_response; Normal success_response], []).
Proof.
  split; [reflexivity|].
  exact (proj1 (POST_twice_independent (json_request (JObject ada)) [] eq_refl)).
Defined.

Lemma falsy_nonstring_falsy props k :
  falsy_nonstring props k = true → ToBoolean (GetV (JObject props) k) = false.
Proof.
  unfold falsy_nonstring; cbn. destruct (props !! k) as [v|]; [|discriminate].
  cbn. destruct v; try discriminate; apply negb_true_iff.
Qed.

(** C8.  The test is truthiness, whatever the type: a record whose three
    fields are truthy is accepted with [{ok: true}], and a record with a
    falsy non-string value in one of the three fields is rejected with
    status 400. *)
Theorem POST_checks_truthiness_not_type (accepted rejected : gmap string JsValue)
    (w : World)
    (Htruthy : valid_submission (JObject accepted) = true)
    (Hfalsy : existsb (falsy_nonstring rejected) required_fields = true) :
  RouteTs.POST (json_request (JObject accepted)) w = (Normal success_response, w)
  ∧ payload success_response = JObject {["ok" := JBool true]}
  ∧ RouteTs.POST (json_request (JObject rejected)) w = (Normal missing_fields_response, w)
  ∧ status missing_fields_response = 400.
Proof.
  split; [by rewrite RouteTs_POST_record, Htruthy|].
  split; [reflexivity|]. split; [|reflexivity].
  apply existsb_exists in Hfalsy as (k & Hk & Hfalse).
  rewrite RouteTs_POST_record, (falsy_field_invalid _ k); [done| |].
  - by apply list_elem_of_In.
  - by apply falsy_nonstring_falsy.
Qed.

Lemma POST_checks_truthiness_not_type_witness :
  (valid_submission (JObject truthy_nonstrings) = true
   ∧ existsb (falsy_nonstring zero_name) required_fields = true
   ∧ existsb (falsy_nonstring false_email) required_fields = true)
  ∧ RouteTs.POST (json_request (JObject truthy_nonstrings)) []
      = (Normal success_response, [])
  ∧ RouteTs.POST (json_request (JObject zero_name)) []
      = (Normal missing_fields_response, [])
  ∧ RouteTs.POST (json_request (JObject false_email)) []
      = (Normal missing_fields_response, []).
Proof.
  split; [repeat split|].
  split; [exact (proj1 (POST_checks_truthiness_not_type
                          truthy_nonstrings zero_name [] eq_refl eq_refl))|].
  split.
  - exact (proj1 (proj2 (proj2 (POST_checks_truthiness_not_type
                          truthy_nonstrings zero_name [] eq_refl eq_refl)))).
  - exact (proj1 (proj2 (proj2 (POST_checks_truthiness_not_type
                          truthy_nonstrings false_email [] eq_refl eq_refl)))).
Defined.

(** C9.  The handler looks at [name], [email] and [message] only: two
    requests whose parsed bodies read the same on these three fields get
    the same result. *)
Theorem POST_reads_only_three_fields (r1 r2 : Request) (w : World)
    (Hagree : agree_on_fields (parsed_or_empty r1) (parsed_or_empty r2)) :
  RouteTs.POST r1 w = RouteTs.POST r2 w.
Proof.
  rewrite !RouteTs_POST_eq.
  unfold agree_on_fields, required_fields in Hagree.
  apply Forall_cons in Hagree as [Hn Hagree].
  apply Forall_cons in Hagree as [He Hagree].
  apply Forall_cons in Hagree as [Hm _].
  unfold read_field, destructure in *.
  destruct (RequireObjectCoercible (parsed_or_empty r1)) as [o1|e1],
    (RequireObjectCoercible (parsed_or_empty r2)) as [o2|e2];
    simplify_eq; [|reflexivity].
  by rewrite Hn, He, Hm.
Qed.

Lemma POST_reads_only_three_fields_witness :
  agree_on_fields (parsed_or_empty (json_request (JObject ada_with_extras)))
    (parsed_or_empty (json_request (JObject ada)))
  ∧ RouteTs.POST (json_request (JObject ada_with_extras)) []
    = RouteTs.POST (json_request (JObject ada)) [].
Proof.
  assert (H : agree_on_fields (parsed_or_empty (json_request (JObject ada_with_extras)))
                (parsed_or_empty (json_request (JObject ada))))
    by (repeat constructor).
  split; [exact H|].
  exact (POST_reads_only_three_fields _ _ [] H).
Defined.

(** ** The contact form *)

(** Under React every submission issues the request for the form's values
    and ends with the failure message on an untouched form: a response that
    is not a success throws in the [try] block, and after a success
    [e.currentTarget] is [null] by the time [reset] is called on it. *)
Lemma React_submit_always_fails (net : Network) (p : Page) :
  React_submit net p =
  (Normal tt,
   {| form := form p; status_state := status_error; currentTarget := None;
      defaultPrevented := true;
      network_log := network_log p ++ [submit_call (form p)] |}).
Proof.
  unfold React_submit, handleSubmit, mbind, Eff_bind, eff_bind, eff_catch,
    React_await_fetch, submit_call. cbn.
  destruct (net _) as [res|err]; cbn; [|reflexivity].
  destruct (Response_ok res); reflexivity.
Qed.

(** In a runtime that leaves the event alone the function does what it was
    written to do: acknowledgement and a cleared form on success, the
    failure message otherwise. *)
Lemma plain_submit_outcome (net : Network) (p : Page) :
  handleSubmit (plain_await_fetch net) (set_currentTarget (Some ContactFormElement) p) =
  (Normal tt,
   match net (submit_call (form p)) with
   | Normal res =>
       if Response_ok res
       then {| form := form_reset (form p); status_state := status_ok;
               currentTarget := Some ContactFormElement; defaultPrevented := true;
               network_log := network_log p ++ [submit_call (form p)] |}
       else {| form := form p; status_state := status_error;
               currentTarget := Some ContactFormElement; defaultPrevented := true;
               network_log := network_log p ++ [submit_call (form p)] |}
   | Throw _ =>
       {| form := form p; status_state := status_error;
          currentTarget := Some ContactFormElement; defaultPrevented := true;
          network_log := network_log p ++ [submit_call (form p)] |}
   end).
Proof.
  unfold handleSubmit, mbind, Eff_bind, eff_bind, eff_catch, plain_await_fetch,
    submit_call. cbn.
  destruct (net _) as [res|err]; cbn; [|reflexivity].
  destruct (Response_ok res); reflexivity.
Qed.

(** The request the form sends carries what the TypeScript route reads. *)
Lemma submit_call_parsed (f : HTMLFormElement) (k : string) :
  GetV (parsed_or_empty {| body := fetch_body (submit_call f) |}) k =
  if String.eqb k "name" then JString (name_value f)
  else if String.eqb k "email" then JString (email_value f)
  else if String.eqb k "message" then JString (message_value f)
  else JUndefined.
Proof.
  cbn. destruct (String.eqb_spec k "name") as [->|Hn]; [by rewrite lookup_insert_eq|].
  rewrite lookup_insert_ne by done.
  destruct (String.eqb_spec k "email") as [->|He]; [by rewrite lookup_insert_eq|].
  rewrite lookup_insert_ne by done.
  destruct (String.eqb_spec k "message") as [->|Hm]; [by rewrite lookup_singleton_eq|].
  by rewrite lookup_singleton_ne.
Qed.

(** A form with its three controls filled in is accepted by the TypeScript
    route. *)
Lemma contact_route_accepts_filled_form (f : HTMLFormElement) (w : World) :
  name_value f ≠ "" → email_value f ≠ "" → message_value f ≠ "" →
  contact_route w (submit_call f) = Normal success_response.
Proof.
  intros Hn He Hm. unfold contact_route. rewrite RouteTs_POST_valid; [done|].
  unfold valid_submission, required_fields; cbn [forallb].
  rewrite !submit_call_parsed; cbn.
  by destruct f as [[|? ?] [|? ?] [|? ?]].
Qed.

(** C7.  The handler sends the three form values as the JSON body of a POST
    to [/api/contact].  When the response is a success, it sets the
    acknowledgement and then calls [reset] on [e.currentTarget], which React
    has set to [null] since the listener returned at the [await]: the call
    throws, the [catch] block replaces the acknowledgement by the failure
    message, and the form keeps its values. *)
Theorem handleSubmit_success_under_React (net : Network) (p : Page) (res : Response)
    (Hres : net (submit_call (form p)) = Normal res)
    (Hok : Response_ok res = true) :
  fst (React_submit net p) = Normal tt
  ∧ network_log (snd (React_submit net p)) = network_log p ++ [submit_call (form p)]
  ∧ status_state (snd (React_submit net p)) = status_error
  ∧ status_state (snd (React_submit net p)) ≠ status_ok
  ∧ form (snd (React_submit net p)) = form p
  ∧ status_state (snd (handleSubmit (plain_await_fetch net)
                         (set_currentTarget (Some ContactFormElement) p))) = status_ok
  ∧ form (snd (handleSubmit (plain_await_fetch net)
                 (set_currentTarget (Some ContactFormElement) p))) = form_reset (form p).
Proof.
  rewrite React_submit_always_fails, plain_submit_outcome, Hres, Hok. cbn.
  repeat split. discriminate.
Qed.

Lemma handleSubmit_success_under_React_witness :
  (contact_route [] (submit_call (form ada_page)) = Normal success_response
   ∧ Response_ok success_response = true)
  ∧ status_state (snd (React_submit (contact_route []) ada_page)) = status_error
  ∧ form (snd (React_submit (contact_route []) ada_page)) = form ada_page.
Proof.
  split; [split; reflexivity|].
  pose proof (handleSubmit_success_under_React (contact_route []) ada_page
                success_response eq_refl eq_refl) as (_ & _ & Hstatus & _ & Hform & _).
  split; [exact Hstatus | exact Hform].
Defined.

(** ** The project filter *)

Lemma filtered_All (projects : list Project) : filtered projects "All" = projects.
Proof. reflexivity. Qed.

Lemma filtered_other (projects : list Project) (c : string) :
  String.eqb c "All" = false →
  filtered projects c = filter (λ p, cat p = c) projects.
Proof. intros Hc. unfold filtered. by rewrite Hc. Qed.

Lemma sublist_filter_max {A} (P : A → Prop) `{!∀ x, Decision (P x)} (l k : list A) :
  l `sublist_of` k → Forall P l → l `sublist_of` filter P k.
Proof.
  induction 1 as [|x l k Hsub IH|x l k Hsub IH]; intros Hall.
  - constructor.
  - apply Forall_cons in Hall as [Hx Hall].
    rewrite filter_cons_True by done. constructor. by apply IH.
  - rewrite filter_cons. destruct (decide (P x)); [constructor|]; by apply IH.
Qed.

(** C10.  With ["All"] active the displayed list is the whole list.  With
    any other category it is a sub-list of the whole list, in the original
    order, whose members are exactly the projects of that category, and the
    longest such; selecting ["All"] again shows the whole list, which the
    selection has not changed. *)
Theorem filtered_is_selection (projects : list Project) (c : string)
    (Hc : String.eqb c "All" = false) :
  filtered projects "All" = projects
  ∧ filtered projects c `sublist_of` projects
  ∧ (∀ p, p ∈ filtered projects c ↔ p ∈ projects ∧ cat p = c)
  ∧ (∀ l, l `sublist_of` projects → Forall (λ p, cat p = c) l →
          l `sublist_of` filtered projects c)
  ∧ displayed (setActive "All" (setActive c initial_state)) = all.
Proof.
  split; [reflexivity|]. rewrite (filtered_other _ _ Hc).
  split; [apply sublist_filter|].
  split; [intros p; rewrite list_elem_of_filter; tauto|].
  split; [|reflexivity].
  intros l Hsub Hall. by apply sublist_filter_max.
Qed.

Lemma filtered_is_selection_witness :
  String.eqb "Web" "All" = false
  ∧ filtered all "Web" `sublist_of` all
  ∧ title <$> filtered all "Web"
    = ["Roomer – Find great roommates"; "GridPro – 1M+ row data explorer"].
Proof.
  split; [reflexivity|].
  split; [exact (proj1 (proj2 (filtered_is_selection all "Web" eq_refl)))|].
  reflexivity.
Defined.

(** * Further properties of the code *)

(** ** The route handlers on every request *)

(** The object pattern throws on [null] and [undefined] and on nothing
    else. *)
Lemma destructure_cases v :
  (v = JNull ∨ v = JUndefined) ∧ destructure v = Throw TypeError
  ∨ (v ≠ JNull ∧ v ≠ JUndefined)
    ∧ destructure v = Normal (GetV v "name", GetV v "email", GetV v "message").
Proof. destruct v; cbn; auto. Qed.

(** X1.  The TypeScript handler throws exactly when the parsed body is
    [null] or [undefined]; what it throws is then a [TypeError].  On every
    other request, a body that is not JSON included, it returns a
    response. *)
Theorem RouteTs_POST_throws_iff (req : Request) (w : World) :
  (∀ e, fst (RouteTs.POST req w) = Throw e → e = TypeError)
  ∧ ((∃ e, fst (RouteTs.POST req w) = Throw e)
     ↔ parsed_or_empty req = JNull ∨ parsed_or_empty req = JUndefined)
  ∧ (∀ raw, body req = Malformed raw → ∃ res, fst (RouteTs.POST req w) = Normal res).
Proof.
  rewrite RouteTs_POST_eq.
  destruct (destructure_cases (parsed_or_empty req)) as [[Hv ->] | [[Hn Hu] ->]];
    cbn [fst]; split; [| split | | split].
  - intros e [= <-]. reflexivity.
  - split; [intros _; exact Hv | intros _; by exists TypeError].
  - intros raw Hraw. destruct req as [b]; cbn in Hraw; subst b.
    destruct Hv as [Hv | Hv]; discriminate Hv.
  - intros e [=].
  - split; [intros [e [=]] | intros [? | ?]; done].
  - intros raw _. eauto.
Qed.

(** X2.  A response of the TypeScript handler has status 200 or 400; the
    [ok] property of its body is the value of [res.ok]; it is a success
    exactly when the submission is valid; and the body carries the
    [error] message exactly when it is not. *)
Theorem RouteTs_POST_response_shape (req : Request) (w : World) (res : Response)
    (Hres : fst (RouteTs.POST req w) = Normal res) :
  (status res = 200 ∨ status res = 400)
  ∧ GetV (payload res) "ok" = JBool (Response_ok res)
  ∧ (Response_ok res = true ↔ valid_submission (parsed_or_empty req) = true)
  ∧ GetV (payload res) "error"
    = (if Response_ok res then JUndefined else JString "Missing fields").
Proof.
  rewrite RouteTs_POST_eq in Hres.
  destruct (destructure_cases (parsed_or_empty req)) as [[Hv Hd] | [[Hn Hu] Hd]];
    rewrite Hd in Hres; [discriminate|].
  cbn -[missing_fields GetV] in Hres. rewrite missing_fields_valid in Hres.
  destruct (valid_submission (parsed_or_empty req)); injection Hres as <-;
    by repeat split; auto.
Qed.

Lemma RouteTs_POST_response_shape_witness :
  fst (RouteTs.POST (json_request (JObject zero_name)) []) = Normal missing_fields_response
  ∧ GetV (payload missing_fields_response) "ok" = JBool (Response_ok missing_fields_response).
Proof.
  split; [reflexivity|].
  exact (proj1 (proj2 (RouteTs_POST_response_shape
    (json_request (JObject zero_name)) [] missing_fields_response eq_refl))).
Defined.

(** X3.  A JSON body that is a number, a string, a boolean or an array has
    none of the three fields: the TypeScript handler answers 400 with the
    missing-fields body. *)
Theorem RouteTs_POST_rejects_non_records (v : JsValue) (w : World)
    (Hv : primitive_or_array v = true) :
  RouteTs.POST (json_request v) w = (Normal missing_fields_response, w).
Proof.
  rewrite RouteTs_POST_eq. by destruct v.
Qed.

Lemma RouteTs_POST_rejects_non_records_witness :
  primitive_or_array (JArray [JString "Ada"; JString "ada@example.com"; JString "Hello"]) = true
  ∧ RouteTs.POST (json_request
      (JArray [JString "Ada"; JString "ada@example.com"; JString "Hello"])) []
    = (Normal missing_fields_response, []).
Proof.
  split; [reflexivity|].
  exact (RouteTs_POST_rejects_non_records
    (JArray [JString "Ada"; JString "ada@example.com"; JString "Hello"]) [] eq_refl).
Defined.

(** X4.  On every body that parses, the two handlers agree on what a
    client can tell from the status: both throw the same error, or both
    answer with the same status and the same [ok] property, and with the
    same response altogether when the submission is accepted. *)
Theorem RouteJs_agrees_with_RouteTs (v : JsValue) (w : World) :
  match fst (RouteTs.POST (json_request v) w), fst (RouteJs.POST (json_request v) w) with
  | Normal ts, Normal js =>
      status ts = status js
      ∧ GetV (payload ts) "ok" = GetV (payload js) "ok"
      ∧ (Response_ok ts = true → ts = js)
  | Throw e1, Throw e2 => e1 = e2
  | _, _ => False
  end.
Proof.
  rewrite RouteTs_POST_eq, RouteJs_POST_eq. cbn [json_request body parsed_or_empty].
  destruct (destructure v) as [[[n e] m]|err]; [|reflexivity].
  destruct (missing_fields n e m); cbn; repeat split; done.
Qed.

(** X5.  The JavaScript handler throws a [SyntaxError] exactly on a body
    that is not JSON and a [TypeError] exactly on the body [null] (or
    [undefined]); it throws nothing else, and in every case leaves the
    world as it was. *)
Theorem RouteJs_POST_throws_iff (req : Request) (w : World) :
  snd (RouteJs.POST req w) = w
  ∧ (fst (RouteJs.POST req w) = Throw SyntaxError ↔ ∃ raw, body req = Malformed raw)
  ∧ (fst (RouteJs.POST req w) = Throw TypeError
     ↔ body req = JsonText JNull ∨ body req = JsonText JUndefined)
  ∧ (∀ msg, fst (RouteJs.POST req w) ≠ Throw (Error msg)).
Proof.
  rewrite RouteJs_POST_eq. destruct req as [[v|raw]]; cbn [body].
  - pose proof (destructure_cases v) as Hcases.
    destruct Hcases as [[Hv ->] | [[Hn Hu] ->]]; cbn.
    + repeat split; try done.
      * intros [raw [=]].
      * intros _. destruct Hv as [-> | ->]; auto.
    + destruct (missing_fields _ _ _); cbn; repeat split; try done.
      all: try (intros [raw [=]]).
      all: intros [[= ->] | [= ->]]; done.
  - cbn. repeat split; try done; eauto.
    intros [[=] | [=]].
Qed.

Lemma RouteTs_POST_answer req w :
  RouteTs.POST req w = (answer_for (parsed_or_empty req), w).
Proof.
  rewrite RouteTs_POST_eq. unfold answer_for.
  destruct (destructure_cases (parsed_or_empty req)) as [[Hv ->] | [[Hn Hu] ->]].
  - by destruct Hv as [-> | ->].
  - rewrite missing_fields_valid.
    destruct (parsed_or_empty req); try done;
      by destruct (valid_submission _).
Qed.

(** X6.  In a batch of requests served one after the other, each request
    gets the answer its own body calls for: the [TypeError] for the body
    [null], 200 with [{ok: true}] when its three fields are truthy, 400
    with the missing-fields body otherwise.  A request that is rejected or
    that throws changes nothing for the ones after it, and the world after
    the batch is the world before it. *)
Theorem serve_RouteTs_batch (reqs : list Request) (w : World) :
  serve RouteTs.POST reqs w = ((λ req, answer_for (parsed_or_empty req)) <$> reqs, w).
Proof.
  revert w. induction reqs as [|req rest IH]; intros w; [reflexivity|].
  cbn [serve fmap list_fmap]. by rewrite RouteTs_POST_answer, IH.
Qed.

(** X7.  What the TypeScript route answers to the request the form sends:
    success when all three controls hold text, the missing-fields response
    otherwise; it never throws on such a request. *)
Theorem contact_route_on_form (f : HTMLFormElement) (w : World) :
  contact_route w (submit_call f)
  = Normal (if form_filled f then success_response else missing_fields_response).
Proof.
  unfold contact_route. rewrite RouteTs_POST_eq.
  cbn [parsed_or_empty body submit_call fetch_body].
  rewrite destructure_record, missing_fields_valid.
  change (JObject _) with (parsed_or_empty {| body := fetch_body (submit_call f) |}).
  unfold valid_submission, required_fields; cbn [forallb fst].
  rewrite !submit_call_parsed; cbn.
  by destruct f as [[|? ?] [|? ?] [|? ?]].
Qed.

(** ** The contact form over a visit *)

(** X8.  Over any sequence of edits and submissions under React, no
    listener throws, each submission sends one request carrying the values
    the form held at that moment, and the form ends with the values last
    typed: no submission clears it. *)
Theorem Contact_run_requests (evs : list ContactEvent) (p : Page) :
  Forall (λ c, c = Normal tt) (fst (Contact_run evs p))
  ∧ network_log (snd (Contact_run evs p))
    = network_log p ++ (submit_call <$> submitted_values evs (form p))
  ∧ form (snd (Contact_run evs p)) = last_values evs (form p).
Proof.
  revert p. induction evs as [|[f|net] rest IH]; intros p.
  - cbn. by rewrite app_nil_r.
  - cbn [Contact_run Contact_handle submitted_values last_values].
    specialize (IH (set_form f p)).
    destruct (Contact_run rest (set_form f p)) as [cs p2]. exact IH.
  - cbn [Contact_run Contact_handle submitted_values last_values].
    rewrite React_submit_always_fails.
    match goal with |- context [Contact_run rest ?q] => specialize (IH q) end.
    destruct (Contact_run rest _) as [cs p2]. cbn in IH |- *.
    destruct IH as (Hcs & Hlog & Hform). split; [by constructor|].
    split; [|exact Hform]. by rewrite Hlog, <- app_assoc.
Qed.

(** X9.  On every page a visitor can reach, the status paragraph is absent,
    or green with the acknowledgement, or red with the failure message: it
    is never shown without a text, and its colour goes with its message. *)
Theorem status_paragraph_invariant (p : Page) (Hreach : Contact_reachable p) :
  status_paragraph (status_state p) = None
  ∨ status_paragraph (status_state p)
    = Some {| className := "text-sm text-green-600";
              text := Some "Thanks! I'll get back to you soon." |}
  ∨ status_paragraph (status_state p)
    = Some {| className := "text-sm text-red-600";
              text := Some "Something went wrong. Email me directly instead." |}.
Proof.
  induction Hreach as [p Hidle | f p _ IH | net p _ _ | net p _ _].
  - left. by rewrite Hidle.
  - exact IH.
  - rewrite React_submit_always_fails. right; right. reflexivity.
  - rewrite plain_submit_outcome. cbn [snd].
    destruct (net _) as [res|err]; [destruct (Response_ok res)|]; cbn; auto.
Qed.

Lemma status_paragraph_invariant_witness :
  Contact_reachable (snd (React_submit (contact_route []) ada_page))
  ∧ status_paragraph (status_state (snd (React_submit (contact_route []) ada_page)))
    = Some {| className := "text-sm text-red-600";
              text := Some "Something went wrong. Email me directly instead." |}.
Proof.
  assert (H : Contact_reachable (snd (React_submit (contact_route []) ada_page)))
    by (apply reach_React, reach_idle; reflexivity).
  split; [exact H|].
  destruct (status_paragraph_invariant _ H) as [Hn | [Hg | Hr]];
    [discriminate Hn | discriminate Hg | exact Hr].
Defined.

(** ** The navigation bar *)

Lemma Navbar_run_snoc evs ev o :
  Navbar_run (evs ++ [ev]) o = Navbar_handle ev (Navbar_run evs o).
Proof. unfold Navbar_run. by rewrite foldl_app. Qed.

(** X10.  In the navigation bar, when every click is on something the bar
    shows, the menu is open exactly after an odd number of clicks on the
    button or on a link of the mobile menu: such a link is there only while
    the menu is open, so each of these clicks flips the menu; clicks on
    the desktop links do not count. *)
Theorem Navbar_open_parity (evs : list NavEvent) (is_open : bool)
    (Htrace : Navbar_trace evs is_open = true) :
  Navbar_run evs is_open
  = xorb is_open (Nat.odd (menu_clicks evs)).
Proof.
  revert is_open Htrace. induction evs as [|ev rest IH]; intros o Htrace.
  - cbn. by destruct o.
  - cbn [Navbar_trace] in Htrace. apply andb_prop in Htrace as [Hen Hrest].
    change (Navbar_run (ev :: rest) o) with (Navbar_run rest (Navbar_handle ev o)).
    rewrite (IH _ Hrest). destruct ev.
    + cbn [menu_clicks Navbar_handle].
      rewrite Nat.odd_succ, <- Nat.negb_odd. by destruct o, (Nat.odd _).
    + cbn [menu_clicks Navbar_handle]. destruct o; [|discriminate Hen].
      rewrite Nat.odd_succ, <- Nat.negb_odd. by destruct (Nat.odd _).
    + reflexivity.
Qed.

Lemma Navbar_open_parity_witness :
  Navbar_trace [ToggleMenu; DesktopLinkClick; MobileLinkClick; ToggleMenu] false = true
  ∧ Navbar_run [ToggleMenu; DesktopLinkClick; MobileLinkClick; ToggleMenu] false = true.
Proof.
  split; [reflexivity|].
  exact (Navbar_open_parity
           [ToggleMenu; DesktopLinkClick; MobileLinkClick; ToggleMenu] false eq_refl).
Defined.

(** Whatever happened before, after a click on a link of the mobile
    menu the menu is closed: the bar shows no mobile list and the button
    has [aria-expanded] false; and the mobile list, when shown, has the
    links of the desktop list in the same order. *)
Lemma Navbar_link_closes_menu (evs : list NavEvent) (is_open : bool) :
  Navbar_render (Navbar_run (evs ++ [MobileLinkClick]) is_open)
  = {| aria_expanded := false; desktop_links := links; mobile_links := None |}
  ∧ ∀ o shown, mobile_links (Navbar_render o) = Some shown →
      shown = desktop_links (Navbar_render o) ∧ aria_expanded (Navbar_render o) = true.
Proof.
  split; [by rewrite Navbar_run_snoc|].
  intros [] shown; cbn; [by intros [= <-] | discriminate].
Qed.

(** ** Revealing a section *)

Lemma Section_renders_snoc obs inView :
  Section_renders (obs ++ [inView]) = Section_render inView (Section_renders obs).
Proof. unfold Section_renders. by rewrite foldl_app. Qed.

(** After at least one render the effect has run with the latest value of
    [inView], and the section is visible exactly when some value so far
    was true. *)
Lemma Section_renders_state (obs : list bool) :
  effect_deps (Section_renders obs) = last obs
  ∧ variant (Section_renders obs) = (if existsb id obs then visible else hidden).
Proof.
  induction obs as [|inView obs IH] using rev_ind; [done|].
  rewrite Section_renders_snoc, last_snoc, existsb_app. cbn [existsb id].
  destruct IH as [Hdeps Hvar]. unfold Section_render. rewrite Hdeps.
  destruct (last obs) as [previous|] eqn:Hlast.
  - destruct (Bool.eqb previous inView) eqn:Heq.
    + apply Bool.eqb_prop in Heq as ->. split; [done|]. rewrite Hvar.
      rewrite orb_false_r. destruct inView; [|by rewrite orb_false_r].
      assert (Hin : existsb id obs = true).
      { apply existsb_exists. exists true. split; [|done].
        apply list_elem_of_In, list_elem_of_lookup. apply last_Some in Hlast as [l' ->].
        exists (length l'). by rewrite lookup_app_r, Nat.sub_diag. }
      by rewrite Hin.
    + cbn. split; [done|]. rewrite Hvar, orb_false_r.
      destruct inView; cbn; [by rewrite orb_true_r | by rewrite orb_false_r].
  - cbn. split; [done|]. rewrite Hvar, orb_false_r.
    destruct inView; cbn; [by rewrite orb_true_r | by rewrite orb_false_r].
Qed.

(** X11.  A section is visible exactly when [inView] was true at one of
    its renders so far; once revealed it stays revealed, whatever [inView]
    becomes later. *)
Theorem Section_visible_iff (obs later : list bool) :
  (variant (Section_renders obs) = visible ↔ true ∈ obs)
  ∧ (variant (Section_renders obs) = visible →
     variant (Section_renders (obs ++ later)) = visible).
Proof.
  assert (Hiff : ∀ l, variant (Section_renders l) = visible ↔ true ∈ l).
  { intros l. rewrite (proj2 (Section_renders_state l)).
    destruct (existsb id l) eqn:Hex.
    - apply existsb_exists in Hex as ([] & Hin & Hid); [|done].
      split; [intros _; by apply list_elem_of_In | done].
    - split; [done|]. intros Hin%list_elem_of_In.
      assert (existsb id l = true) by (apply existsb_exists; by exists true).
      congruence. }
  split; [apply Hiff|]. rewrite !Hiff. intros Hin. apply elem_of_app. by left.
Qed.

(** ** The project gallery *)

Lemma Projects_clicks_active (clicks : list string) :
  clicks_on_buttons clicks = true →
  active (Projects_clicks clicks) ∈ categories.
Proof.
  induction clicks as [|c clicks IH] using rev_ind; intros Hon.
  - cbn. set_solver.
  - unfold Projects_clicks. rewrite foldl_app. cbn.
    unfold clicks_on_buttons in Hon. rewrite forallb_app in Hon.
    apply andb_prop in Hon as [_ Hc]. cbn in Hc.
    rewrite andb_true_r in Hc. by apply bool_decide_eq_true in Hc.
Qed.

(** X12.  After any clicks on the category buttons exactly one button is
    pressed, the one of the active category, and the gallery shows the
    selection for that category. *)
Theorem category_buttons_one_pressed (clicks : list string)
    (Hon : clicks_on_buttons clicks = true) :
  filter (λ b, aria_pressed b = true) (category_buttons (Projects_clicks clicks))
  = [{| caption := active (Projects_clicks clicks); aria_pressed := true |}]
  ∧ caption <$> category_buttons (Projects_clicks clicks) = categories
  ∧ displayed (Projects_clicks clicks)
    = filtered all (default "All" (last clicks)).
Proof.
  pose proof (Projects_clicks_active clicks Hon) as Hact.
  assert (Hlast : active (Projects_clicks clicks) = default "All" (last clicks)).
  { destruct clicks as [|c clicks _] using rev_ind; [done|].
    unfold Projects_clicks. by rewrite foldl_app, last_snoc. }
  unfold displayed. rewrite <- Hlast.
  destruct (Projects_clicks clicks) as [a]. cbn in Hact |- *.
  split; [|done].
  unfold categories in Hact.
  repeat (apply elem_of_cons in Hact as [-> | Hact]; [reflexivity|]).
  by apply elem_of_nil in Hact.
Qed.

Lemma category_buttons_one_pressed_witness :
  clicks_on_buttons ["Web"; "All"; "Infra"] = true
  ∧ filter (λ b, aria_pressed b = true)
      (category_buttons (Projects_clicks ["Web"; "All"; "Infra"]))
    = [{| caption := "Infra"; aria_pressed := true |}].
Proof.
  split; [reflexivity|].
  exact (proj1 (category_buttons_one_pressed ["Web"; "All"; "Infra"] eq_refl)).
Defined.

Lemma filtered_sublist (projects : list Project) (c : string) :
  filtered projects c `sublist_of` projects.
Proof.
  unfold filtered. destruct (String.eqb c "All"); [done|]. apply sublist_filter.
Qed.

(** X13.  The cards of a gallery have distinct React keys whatever the
    active category: a list of projects with distinct titles keeps distinct
    titles under every selection. *)
Theorem card_keys_distinct (projects : list Project) (c : string)
    (Hkeys : NoDup (card_keys projects)) :
  NoDup (card_keys (filtered projects c))
  ∧ card_keys (filtered projects c) `sublist_of` card_keys projects.
Proof.
  assert (Hsub : card_keys (filtered projects c) `sublist_of` card_keys projects)
    by (apply fmap_sublist, filtered_sublist).
  split; [|exact Hsub]. by apply (sublist_NoDup _ _ Hkeys).
Qed.

Lemma card_keys_distinct_witness :
  NoDup (card_keys all) ∧ NoDup (card_keys (displayed (setActive "Web" initial_state))).
Proof.
  assert (H : NoDup (card_keys all)) by (apply (bool_decide_unpack _); vm_compute; exact I).
  split; [exact H|].
  exact (proj1 (card_keys_distinct all "Web" H)).
Defined.

Lemma well_typed_cats_cons p projects :
  well_typed_cats (p :: projects) = true →
  (cat p = "Web" ∨ cat p = "Data" ∨ cat p = "Infra") ∧ well_typed_cats projects = true.
Proof.
  unfold well_typed_cats; cbn. intros [Hp Hrest]%andb_prop. split; [|done].
  apply bool_decide_eq_true in Hp.
  repeat (apply elem_of_cons in Hp as [Hp | Hp]; [by auto|]).
  by apply elem_of_nil in Hp.
Qed.

(** X14.  The three category tabs split the gallery: for a list whose
    projects have one of the three categories of the type, the selections
    for "Web", "Data" and "Infra" together hold each project exactly as
    often as the whole list does. *)
Theorem category_tabs_partition (projects : list Project)
    (Htyped : well_typed_cats projects = true) :
  filtered projects "Web" ++ filtered projects "Data" ++ filtered projects "Infra"
  ≡ₚ projects.
Proof.
  rewrite !filtered_other by reflexivity.
  induction projects as [|p projects IH]; [done|].
  apply well_typed_cats_cons in Htyped as [Hcat Htyped]. specialize (IH Htyped).
  rewrite !(filter_cons _ p). destruct Hcat as [Hc | [Hc | Hc]]; rewrite Hc.
  - rewrite decide_True by done. rewrite !decide_False by done.
    cbn. by rewrite IH.
  - rewrite (decide_False (P := "Data" = "Web")) by done.
    rewrite decide_True by done. rewrite decide_False by done.
    rewrite <- app_comm_cons, <- Permutation_middle. by rewrite IH.
  - rewrite (decide_False (P := "Infra" = "Web")) by done.
    rewrite (decide_False (P := "Infra" = "Data")) by done.
    rewrite decide_True by done.
    rewrite app_assoc, <- Permutation_middle, <- app_assoc. by rewrite IH.
Qed.

Lemma category_tabs_partition_witness :
  well_typed_cats all = true
  ∧ filtered all "Web" ++ filtered all "Data" ++ filtered all "Infra" ≡ₚ all.
Proof.
  split; [reflexivity|].
  exact (category_tabs_partition all eq_refl).
Defined.

(** X15.  A category other than "All" shows an empty gallery exactly when
    no project of the list has it. *)
Theorem filtered_empty_iff (projects : list Project) (c : string)
    (Hc : String.eqb c "All" = false) :
  filtered projects c = [] ↔ ∀ p, p ∈ projects → cat p ≠ c.
Proof.
  rewrite (filtered_other _ _ Hc). split.
  - intros Hnil p Hp Hcat.
    assert (Hin : p ∈ filter (λ p, cat p = c) projects)
      by (apply list_elem_of_filter; split; done).
    rewrite Hnil in Hin. by apply elem_of_nil in Hin.
  - intros Hnone. induction projects as [|p projects IH]; [done|].
    rewrite filter_cons_False by (apply Hnone; left).
    apply IH. intros q Hq. apply Hnone. by right.
Qed.

Lemma filtered_empty_iff_witness :
  String.eqb "Mobile" "All" = false ∧ filtered all "Mobile" = [].
Proof.
  split; [reflexivity|].
  apply (proj2 (filtered_empty_iff all "Mobile" eq_refl)).
  intros p Hp. apply (proj1 (Forall_forall (λ p, cat p ≠ "Mobile") all)); [|exact Hp].
  repeat constructor; discriminate.
Defined.
